(** * The workpool of tearUpGo: relay buffer, completion tracker, pool controller

  A shallow embedding of the Go packages [workpool] and
  [workpool/internal/sync].  Goroutines are modelled by an interleaving
  semantics: every goroutine has a program counter naming the statement
  it is about to execute, and a scheduler label picks which goroutine
  moves (and, at a [select], which ready case is taken).  Channels are
  bounded FIFO queues with a closed flag, the [uint64] counter wraps at
  [2^64], and a Go panic is an explicit outcome.

  The Go runtime is not code of the repository: channels, [select],
  [sync.WaitGroup], the cancellation of a context and [time.After] behave
  here as the language specification and the package documentation
  describe them. *)

From Stdlib Require Import ZArith List Bool Lia String.
From stdpp Require Import base list.
Import ListNotations.
Local Open Scope Z_scope.

(** ** Go channels *)

Module Chan.
Section WithElem.
Context {A : Type}.

(** [make(chan A, cap)]: the buffered items in arrival order and the
    closed flag. *)
Record chan := mk { cap : nat; queue : list A; closed : bool }.

Definition make (n : nat) : chan := mk n [] false.

Inductive send_result := Sent (c : chan) | SendBlocks | SendPanics.
Inductive recv_result := Received (x : A) (c : chan) | RecvClosed | RecvBlocks.

(** [c <- x]: panics on a closed channel, otherwise needs a free slot. *)
Definition send (c : chan) (x : A) : send_result :=
  if closed c then SendPanics
  else if (length (queue c) <? cap c)%nat
       then Sent (mk (cap c) (queue c ++ [x]) (closed c))
       else SendBlocks.

(** [x, ok := <-c]: buffered items are still delivered after a close;
    [ok = false] only on a closed and empty channel. *)
Definition recv (c : chan) : recv_result :=
  match queue c with
  | x :: q => Received x (mk (cap c) q (closed c))
  | [] => if closed c then RecvClosed else RecvBlocks
  end.

(** [close(c)]: [None] is the panic of closing a closed channel. *)
Definition close (c : chan) : option chan :=
  if closed c then None else Some (mk (cap c) (queue c) true).
End WithElem.
Arguments chan : clear implicits.
End Chan.

(** ** Outcomes of code that may panic *)

Inductive outcome (A : Type) : Type :=
| Ok (a : A)
| Panic (msg : string).
Arguments Ok {A} a.
Arguments Panic {A} msg.

(** ** package workpool/internal/sync: ExtWaitGroup *)

Module ExtWG.

Definition wrap64 (z : Z) : Z := z mod 2 ^ 64.
(** the conversion [int(delta)] of a [uint64] on a 64-bit platform *)
Definition int_of_uint64 (u : Z) : Z := if u <? 2 ^ 63 then u else u - 2 ^ 64.
(** the conversion [uint64(n)] of an [int] *)
Definition uint64_of_int (n : Z) : Z := n mod 2 ^ 64.

(** [WaitGroup] is the counter of the embedded [sync.WaitGroup];
    [waitCount] is the mirror the pool reads. *)
Record ExtWaitGroup := mk { WaitGroup : Z; waitCount : Z }.

Definition zero : ExtWaitGroup := mk 0 0.

(** State and panic monad over the tracker. *)
Definition M (A : Type) : Type := ExtWaitGroup -> outcome (A * ExtWaitGroup).
Definition ret {A} (a : A) : M A := fun w => Ok (a, w).
Definition bind {A B} (m : M A) (k : A -> M B) : M B :=
  fun w => match m w with
           | Ok (a, w') => k a w'
           | Panic msg => Panic msg
           end.

Declare Scope wg_scope.
Delimit Scope wg_scope with wg.
Notation "x <- m ;; k" := (bind m (fun x => k))
  (at level 60, m at next level, right associativity) : wg_scope.
Notation "m ;;; k" := (bind m (fun _ => k))
  (at level 60, right associativity) : wg_scope.
Local Open Scope wg_scope.

(** The standard library's [WaitGroup.Add], as documented: the counter
    moves by [n] and the call panics when it would go negative. *)
Definition WaitGroup_Add (n : Z) : M unit :=
  fun w => if WaitGroup w + n <? 0
           then Panic "sync: negative WaitGroup counter"
           else Ok (tt, mk (WaitGroup w + n) (waitCount w)).

Definition WaitGroup_Done : M unit := WaitGroup_Add (-1).

(** [atomic.AddUint64(&w.waitCount, d)] returns the new value. *)
Definition atomic_AddUint64 (d : Z) : M Z :=
  fun w => let v := wrap64 (waitCount w + d) in Ok (v, mk (WaitGroup w) v).

(** [atomic.CompareAndSwapUint64(&w.waitCount, old, new)] *)
Definition atomic_CompareAndSwapUint64 (old new : Z) : M bool :=
  fun w => if waitCount w =? old
           then Ok (true, mk (WaitGroup w) new)
           else Ok (false, w).

Definition Add (n : Z) : M Z :=
  WaitGroup_Add n ;;; atomic_AddUint64 (uint64_of_int n).

Definition CompareAndAdd (old delta : Z) : M bool :=
  ok <- atomic_CompareAndSwapUint64 old (wrap64 (old + delta)) ;;
  if negb ok then ret false
  else WaitGroup_Add (int_of_uint64 delta) ;;; ret true.

Definition Done : M unit :=
  WaitGroup_Done ;;; _ <- atomic_AddUint64 (2 ^ 64 - 1) ;; ret tt.

Definition GetWaitCount (w : ExtWaitGroup) : Z := waitCount w.



End ExtWG.

(** ** package workpool/internal/sync: ElasticBuf *)

(** What travels through the channels is an [interface{}]: either a value
    that implements [IWorkload] (identified by [id]) or the nil interface,
    on which the worker's type assertion fails. *)
Inductive job : Type :=
| JWork (id : nat)
| JNil.

Module EB.

Definition defaultChanSize : nat := 2.

(** [In = None] is the nil channel the relay loop stores into the field
    once it has seen the admission endpoint closed. *)
Record ElasticBuf := mk {
  In : option (Chan.chan job);
  Out : Chan.chan job;
  buf : list job }.

Definition NewElasticBuf : ElasticBuf :=
  mk (Some (Chan.make defaultChanSize)) (Chan.make defaultChanSize) [].

Definition Len (eb : ElasticBuf) : nat := length (buf eb).

Definition with_In (c : option (Chan.chan job)) (eb : ElasticBuf) : ElasticBuf :=
  mk c (Out eb) (buf eb).
Definition with_Out (c : Chan.chan job) (eb : ElasticBuf) : ElasticBuf :=
  mk (In eb) c (buf eb).
Definition with_buf (b : list job) (eb : ElasticBuf) : ElasticBuf :=
  mk (In eb) (Out eb) b.

(** items waiting in the admission channel (none once the field is nil) *)
Definition In_queue (eb : ElasticBuf) : list job :=
  match In eb with Some c => Chan.queue c | None => [] end.

End EB.

(** ** package workpool *)

Inductive relay_pc : Type :=
| r_idle   (* Run has not been called *)
| r_loop   (* at the top of the for loop of run *)
| r_done.  (* run has returned *)

(** the cases of the two selects of [ElasticBuf.Run] *)
Inductive relay_case : Type :=
| case_In    (* case e, ok := <-eb.In *)
| case_Out   (* case eb.Out <- eb.buf[0] *)
| case_ctx.  (* case <-ctx.Done() *)

Inductive worker_pc : Type :=
| w_select          (* at the select of spawnOneWorker *)
| w_job (j : job)   (* a job was received: type assertion and Work() *)
| w_defer           (* left the loop; the deferred p.Done() is pending *)
| w_exit.

Inductive worker_case : Type :=
| on_Out    (* case job, ok := <-p.elasticJobBuf.Out *)
| on_idle   (* case <-time.After(maxIdleDuration) *)
| on_ctx    (* case <-p.ctx.Done() *)
| on_run.   (* the statement after the select: Work(), or the deferred Done *)

(** program points of [AddTask] *)
Inductive AddTask_pc : Type :=
| at_entry          (* if p.down *)
| at_count          (* if p.GetWaitCount() == 0 *)
| at_send0          (* p.elasticJobBuf.In <- work   (count was zero) *)
| at_go0            (* go p.spawnOneWorker()        (count was zero) *)
| at_select         (* select { case p.elasticJobBuf.Out <- work: default: *)
| at_send1          (* p.elasticJobBuf.In <- work   (default case) *)
| at_recount        (* wc := p.GetWaitCount(); wc < uint64(p.workerCount) *)
| at_cas (wc : Z)   (* p.CompareAndAdd(wc, 1) *)
| at_go1            (* go p.spawnOneWorker()        (after the CAS) *)
| at_return.

(** what one statement of [AddTask] observed or did *)
Inductive event : Type :=
| EvDown (b : bool)           (* read p.down *)
| EvLog                       (* log.Println *)
| EvCount (c : Z)             (* read the tracker count *)
| EvSendIn (j : job)          (* sent on the admission endpoint *)
| EvSendOut (j : job)         (* sent on the dispatch endpoint *)
| EvOutBusy                   (* the select fell to default *)
| EvCAS (wc : Z) (ok : bool)  (* CompareAndAdd(wc, 1) returned ok *)
| EvSpawn.                    (* go p.spawnOneWorker() *)

Record workerpool := mkPool {
  workerCount : Z;
  down : bool;
  ctx_done : bool;                 (* p.ctx has been cancelled *)
  elasticJobBuf : EB.ElasticBuf;
  tracker : ExtWG.ExtWaitGroup }.

Definition NewWorkerpool (n : Z) : option workerpool :=
  if n <=? 0 then None
  else Some (mkPool n false false EB.NewElasticBuf ExtWG.zero).

(** The pool together with its goroutines.  [executed], [admitted],
    [relayed], [submitted] and [waited] are history variables: the ids
    whose Work() ran, the jobs accepted on [In], the jobs the relay loop
    handed to [Out], the jobs passed to AddTask, and whether Wait()
    has returned. *)
Record world := mkWorld {
  pool : workerpool;
  relay : relay_pc;
  workers : list worker_pc;
  callers : list (AddTask_pc * job);
  executed : list nat;
  logs : list string;
  admitted : list job;
  relayed : list job;
  submitted : list job;
  waited : bool;
  crashed : bool }.

Definition with_pool (p : workerpool) (w : world) : world :=
  mkWorld p (relay w) (workers w) (callers w) (executed w) (logs w)
          (admitted w) (relayed w) (submitted w) (waited w) (crashed w).
Definition with_relay (r : relay_pc) (w : world) : world :=
  mkWorld (pool w) r (workers w) (callers w) (executed w) (logs w)
          (admitted w) (relayed w) (submitted w) (waited w) (crashed w).
Definition with_workers (ws : list worker_pc) (w : world) : world :=
  mkWorld (pool w) (relay w) ws (callers w) (executed w) (logs w)
          (admitted w) (relayed w) (submitted w) (waited w) (crashed w).
Definition with_callers (cs : list (AddTask_pc * job)) (w : world) : world :=
  mkWorld (pool w) (relay w) (workers w) cs (executed w) (logs w)
          (admitted w) (relayed w) (submitted w) (waited w) (crashed w).
Definition with_executed (ex : list nat) (w : world) : world :=
  mkWorld (pool w) (relay w) (workers w) (callers w) ex (logs w)
          (admitted w) (relayed w) (submitted w) (waited w) (crashed w).
Definition with_logs (lg : list string) (w : world) : world :=
  mkWorld (pool w) (relay w) (workers w) (callers w) (executed w) lg
          (admitted w) (relayed w) (submitted w) (waited w) (crashed w).
Definition with_admitted (a : list job) (w : world) : world :=
  mkWorld (pool w) (relay w) (workers w) (callers w) (executed w) (logs w)
          a (relayed w) (submitted w) (waited w) (crashed w).
Definition with_relayed (r : list job) (w : world) : world :=
  mkWorld (pool w) (relay w) (workers w) (callers w) (executed w) (logs w)
          (admitted w) r (submitted w) (waited w) (crashed w).
Definition with_submitted (sb : list job) (w : world) : world :=
  mkWorld (pool w) (relay w) (workers w) (callers w) (executed w) (logs w)
          (admitted w) (relayed w) sb (waited w) (crashed w).
Definition with_waited (b : bool) (w : world) : world :=
  mkWorld (pool w) (relay w) (workers w) (callers w) (executed w) (logs w)
          (admitted w) (relayed w) (submitted w) b (crashed w).
Definition with_crashed (b : bool) (w : world) : world :=
  mkWorld (pool w) (relay w) (workers w) (callers w) (executed w) (logs w)
          (admitted w) (relayed w) (submitted w) (waited w) b.

Definition with_down (b : bool) (p : workerpool) : workerpool :=
  mkPool (workerCount p) b (ctx_done p) (elasticJobBuf p) (tracker p).
Definition with_ctx_done (b : bool) (p : workerpool) : workerpool :=
  mkPool (workerCount p) (down p) b (elasticJobBuf p) (tracker p).
Definition with_eb (eb : EB.ElasticBuf) (p : workerpool) : workerpool :=
  mkPool (workerCount p) (down p) (ctx_done p) eb (tracker p).
Definition with_tracker (t : ExtWG.ExtWaitGroup) (p : workerpool) : workerpool :=
  mkPool (workerCount p) (down p) (ctx_done p) (elasticJobBuf p) t.

Definition eb_of (w : world) : EB.ElasticBuf := elasticJobBuf (pool w).
Definition set_eb (eb : EB.ElasticBuf) (w : world) : world :=
  with_pool (with_eb eb (pool w)) w.
Definition set_tracker (t : ExtWG.ExtWaitGroup) (w : world) : world :=
  with_pool (with_tracker t (pool w)) w.
Definition add_log (msg : string) (w : world) : world :=
  with_logs (logs w ++ [msg]) w.

(** A freshly constructed pool with no goroutine yet. *)
Definition boot (p : workerpool) : world :=
  mkWorld p r_idle [] [] [] [] [] [] [] false false.

(** The result of letting one goroutine execute its next statement. *)
Inductive tstep (P : Type) : Type :=
| Step (pc : P) (w : world)
| Blocks
| Panics (msg : string).
Arguments Step {P} pc w.
Arguments Blocks {P}.
Arguments Panics {P} msg.

Definition go_spawnOneWorker (w : world) : world :=
  with_workers (workers w ++ [w_select]) w.

(** [p.elasticJobBuf.In <- work], a blocking send through the field. *)
Definition send_In (j : job) (w : world) : tstep unit :=
  match EB.In (eb_of w) with
  | None => Blocks
  | Some c =>
      match Chan.send c j with
      | Chan.Sent c' =>
          Step tt (with_admitted (admitted w ++ [j])
                     (set_eb (EB.with_In (Some c') (eb_of w)) w))
      | Chan.SendBlocks => Blocks
      | Chan.SendPanics => Panics "send on closed channel"
      end
  end.

(** One iteration of the loop of [ElasticBuf.Run], taking case [c] of the
    select the loop is at. *)
Definition Run_loop (c : relay_case) (w : world) : tstep relay_pc :=
  let eb := eb_of w in
  match relay w with
  | r_loop =>
      match EB.buf eb with
      | e0 :: rest =>
          match c with
          | case_In =>
              match EB.In eb with
              | None => Blocks
              | Some cin =>
                  match Chan.recv cin with
                  | Chan.Received e cin' =>
                      Step r_loop
                        (set_eb (EB.mk (Some cin') (EB.Out eb) (EB.buf eb ++ [e])) w)
                  | Chan.RecvClosed => Step r_loop (set_eb (EB.with_In None eb) w)
                  | Chan.RecvBlocks => Blocks
                  end
              end
          | case_Out =>
              match Chan.send (EB.Out eb) e0 with
              | Chan.Sent o' =>
                  Step r_loop
                    (with_relayed (relayed w ++ [e0])
                       (set_eb (EB.mk (EB.In eb) o' rest) w))
              | Chan.SendBlocks => Blocks
              | Chan.SendPanics => Panics "send on closed channel"
              end
          | case_ctx => if ctx_done (pool w) then Step r_done w else Blocks
          end
      | [] =>
          match c with
          | case_In =>
              match EB.In eb with
              | None => Blocks
              | Some cin =>
                  match Chan.recv cin with
                  | Chan.Received e cin' =>
                      Step r_loop
                        (set_eb (EB.mk (Some cin') (EB.Out eb) (EB.buf eb ++ [e])) w)
                  | Chan.RecvClosed =>
                      match Chan.close (EB.Out eb) with
                      | Some o' => Step r_done (set_eb (EB.with_Out o' eb) w)
                      | None => Panics "close of closed channel"
                      end
                  | Chan.RecvBlocks => Blocks
                  end
              end
          | case_Out => Blocks
          | case_ctx => if ctx_done (pool w) then Step r_done w else Blocks
          end
      end
  | _ => Blocks
  end.

(** One statement of [spawnOneWorker].  The idle timer can only win the
    select while nothing is receivable on [Out].  [Work()] is opaque: it
    runs to its end in one step and is recorded in [executed].  The
    deferred [p.Done()] is one step. *)
Definition spawnOneWorker_step (c : worker_case) (pc : worker_pc) (w : world)
  : tstep worker_pc :=
  let eb := eb_of w in
  match pc, c with
  | w_select, on_Out =>
      match Chan.recv (EB.Out eb) with
      | Chan.Received j o' => Step (w_job j) (set_eb (EB.with_Out o' eb) w)
      | Chan.RecvClosed => Step w_defer w
      | Chan.RecvBlocks => Blocks
      end
  | w_select, on_idle =>
      match Chan.recv (EB.Out eb) with
      | Chan.RecvBlocks => Step w_defer w
      | _ => Blocks
      end
  | w_select, on_ctx => if ctx_done (pool w) then Step w_defer w else Blocks
  | w_job (JWork id), on_run => Step w_select (with_executed (executed w ++ [id]) w)
  | w_job JNil, on_run => Step w_select (add_log "Error: Unexpected job type" w)
  | w_defer, on_run =>
      match ExtWG.Done (tracker (pool w)) with
      | Ok (_, t) => Step w_exit (set_tracker t w)
      | Panic msg => Panics msg
      end
  | _, _ => Blocks
  end.

(** One statement of [AddTask], with what it observed or did. *)
Definition AddTask_step (work : job) (pc : AddTask_pc) (w : world)
  : tstep (AddTask_pc * list event) :=
  let p := pool w in
  match pc with
  | at_entry =>
      if down p
      then Step (at_return, [EvDown true; EvLog])
                (add_log "Error: add task into closed pool" w)
      else Step (at_count, [EvDown false]) w
  | at_count =>
      let c := ExtWG.GetWaitCount (tracker p) in
      if c =? 0 then Step (at_send0, [EvCount c]) w
      else Step (at_select, [EvCount c]) w
  | at_send0 =>
      match send_In work w with
      | Step _ w' => Step (at_go0, [EvSendIn work]) w'
      | Blocks => Blocks
      | Panics msg => Panics msg
      end
  | at_go0 => Step (at_return, [EvSpawn]) (go_spawnOneWorker w)
  | at_select =>
      match Chan.send (EB.Out (eb_of w)) work with
      | Chan.Sent o' =>
          Step (at_return, [EvSendOut work]) (set_eb (EB.with_Out o' (eb_of w)) w)
      | Chan.SendBlocks => Step (at_send1, [EvOutBusy]) w
      | Chan.SendPanics => Panics "send on closed channel"
      end
  | at_send1 =>
      match send_In work w with
      | Step _ w' => Step (at_recount, [EvSendIn work]) w'
      | Blocks => Blocks
      | Panics msg => Panics msg
      end
  | at_recount =>
      let wc := ExtWG.GetWaitCount (tracker p) in
      if wc <? ExtWG.uint64_of_int (workerCount p)
      then Step (at_cas wc, [EvCount wc]) w
      else Step (at_return, [EvCount wc]) w
  | at_cas wc =>
      match ExtWG.CompareAndAdd wc 1 (tracker p) with
      | Ok (true, t) => Step (at_go1, [EvCAS wc true]) (set_tracker t w)
      | Ok (false, t) => Step (at_return, [EvCAS wc false]) (set_tracker t w)
      | Panic msg => Panics msg
      end
  | at_go1 => Step (at_return, [EvSpawn]) (go_spawnOneWorker w)
  | at_return => Blocks
  end.

(** [close(p.elasticJobBuf.In)] *)
Definition close_In (p : workerpool) : outcome workerpool :=
  match EB.In (elasticJobBuf p) with
  | None => Panic "close of nil channel"
  | Some c =>
      match Chan.close c with
      | Some c' => Ok (with_eb (EB.with_In (Some c') (elasticJobBuf p)) p)
      | None => Panic "close of closed channel"
      end
  end.

Definition Shutdown (p : workerpool) : outcome workerpool :=
  if down p then Ok p
  else match close_In p with
       | Ok p1 => Ok (with_down true p1)
       | Panic msg => Panic msg
       end.

Definition Down (p : workerpool) : outcome workerpool :=
  if down p then Ok p
  else match close_In p with
       | Ok p1 => Ok (with_down true (with_ctx_done true p1))
       | Panic msg => Panic msg
       end.

(** [Start]: the relay goroutine is launched, the tracker is incremented
    and the first worker is launched. *)
Definition Start (w : world) : outcome world :=
  let w1 := with_relay r_loop w in
  match ExtWG.Add 1 (tracker (pool w1)) with
  | Ok (_, t) => Ok (go_spawnOneWorker (set_tracker t w1))
  | Panic msg => Panic msg
  end.

(** ** The scheduler *)

Inductive label : Type :=
| L_Start
| L_Shutdown
| L_Down
| L_Wait                               (* Wait() returns *)
| L_AddTask (work : job)               (* some goroutine calls AddTask(work) *)
| L_caller (i : nat)                   (* the i-th AddTask call moves *)
| L_relay (c : relay_case)
| L_worker (i : nat) (c : worker_case).

Definition crash (w : world) : world := with_crashed true w.

(** [Run] is called once per pool, so [L_Start] is offered only while the
    relay goroutine does not exist; the controller calls [Start],
    [Shutdown] and [Down] run without interleaving. *)
Definition step (l : label) (w : world) : option world :=
  if crashed w then None
  else
    match l with
    | L_Start =>
        match relay w with
        | r_idle =>
            match Start w with Ok w' => Some w' | Panic _ => Some (crash w) end
        | _ => None
        end
    | L_Shutdown =>
        match Shutdown (pool w) with
        | Ok p => Some (with_pool p w)
        | Panic _ => Some (crash w)
        end
    | L_Down =>
        match Down (pool w) with
        | Ok p => Some (with_pool p w)
        | Panic _ => Some (crash w)
        end
    | L_Wait =>
        if ExtWG.WaitGroup (tracker (pool w)) =? 0
        then Some (with_waited true w) else None
    | L_AddTask work =>
        Some (with_submitted (submitted w ++ [work])
                (with_callers (callers w ++ [(at_entry, work)]) w))
    | L_caller i =>
        match callers w !! i with
        | Some (pc, work) =>
            match AddTask_step work pc w with
            | Step (pc', _) w' =>
                Some (with_callers (<[i := (pc', work)]> (callers w')) w')
            | Blocks => None
            | Panics _ => Some (crash w)
            end
        | None => None
        end
    | L_relay c =>
        match Run_loop c w with
        | Step r w' => Some (with_relay r w')
        | Blocks => None
        | Panics _ => Some (crash w)
        end
    | L_worker i c =>
        match workers w !! i with
        | Some pc =>
            match spawnOneWorker_step c pc w with
            | Step pc' w' => Some (with_workers (<[i := pc']> (workers w')) w')
            | Blocks => None
            | Panics _ => Some (crash w)
            end
        | None => None
        end
    end.

Fixpoint run (tr : list label) (w : world) : option world :=
  match tr with
  | [] => Some w
  | l :: tr' =>
      match step l w with
      | Some w' => run tr' w'
      | None => None
      end
  end.

(** the worlds of a pool built by [NewWorkerpool n] after schedule [tr] *)
Definition exec (n : Z) (tr : list label) : option world :=
  match NewWorkerpool n with
  | Some p => run tr (boot p)
  | None => None
  end.

(** One call of [AddTask] from [pc] to its return.  Before each of its
    statements the rest of the program may have changed the world in any
    way: [env] lists these changes, one per statement. *)
Fixpoint AddTask_run (work : job) (env : list (world -> world))
    (pc : AddTask_pc) (w : world) {struct env} : option (world * list event) :=
  match pc with
  | at_return => Some (w, [])
  | _ =>
      match env with
      | [] => None
      | e :: env' =>
          match AddTask_step work pc (e w) with
          | Step (pc', evs) w' =>
              match AddTask_run work env' pc' w' with
              | Some (w'', evs') => Some (w'', evs ++ evs')
              | None => None
              end
          | _ => None
          end
      end
  end.

(** [AddTask] on its own: nothing else moves while it runs. *)
Definition AddTask (work : job) (w : world) : option (world * list event) :=
  AddTask_run work (repeat (fun x => x) 7) at_entry w.

(** ** Schedules and state predicates used by the theorems *)

Definition task (n : nat) : job := JWork n.

(** one AddTask call running three (four) of its statements in a row *)
Definition call3 (i : nat) : list label := [L_caller i; L_caller i; L_caller i].
Definition call4 (i : nat) : list label := call3 i ++ [L_caller i].

(** *** The admission policy in the words of the specification *)









(** *** Invariants of the worlds a pool can reach *)

(** Both channels keep the capacity they were made with; the admission
    endpoint is open and the token unfired until the pool is marked down;
    [Out] is closed only by a relay loop that has returned, with an empty
    buffer behind a closed and empty admission endpoint; and the jobs
    accepted on [In] are, in order, those already relayed, those in the
    buffer and those still in the channel. *)
Definition caps_fixed (w : world) : Prop :=
  Chan.cap (EB.Out (eb_of w)) = EB.defaultChanSize
  /\ forall c, EB.In (eb_of w) = Some c -> Chan.cap c = EB.defaultChanSize.

Definition open_until_down (w : world) : Prop :=
  down (pool w) = false ->
  ctx_done (pool w) = false
  /\ exists c, EB.In (eb_of w) = Some c /\ Chan.closed c = false.

Definition closed_after_drain (w : world) : Prop :=
  Chan.closed (EB.Out (eb_of w)) = true ->
  relay w = r_done /\ EB.buf (eb_of w) = []
  /\ exists c, EB.In (eb_of w) = Some c /\ Chan.closed c = true
               /\ Chan.queue c = [].

Definition fifo (w : world) : Prop :=
  admitted w = relayed w ++ EB.buf (eb_of w) ++ EB.In_queue (eb_of w).

Definition wf (w : world) : Prop :=
  caps_fixed w /\ open_until_down w /\ closed_after_drain w /\ fifo w.

(** The relay loop has returned, having relayed [rl] and left [b] in its
    buffer. *)
Definition relay_dead (rl b : list job) (w : world) : Prop :=
  relay w = r_done /\ relayed w = rl /\ EB.buf (eb_of w) = b.

(** The relay loop saw the admission endpoint closed while it still had
    items, stored nil in [eb.In], and has since handed every item to
    [Out]: it now waits in the second select, on a nil channel and on a
    token that no call can fire any more. *)
Definition parked (w : world) : Prop :=
  relay w = r_loop /\ EB.In (eb_of w) = None /\ EB.buf (eb_of w) = []
  /\ down (pool w) = true /\ ctx_done (pool w) = false
  /\ Chan.closed (EB.Out (eb_of w)) = false.

(** *** Schedules *)

Definition call7 (i : nat) : list label := call4 i ++ call3 i.

(** Two direct hand-offs fill [Out]; three more tasks go through [In];
    the relay loop takes two of them and hands one on. *)
Definition fifo_schedule : list label :=
  [L_Start; L_AddTask (task 1)] ++ call3 0 ++ [L_AddTask (task 2)] ++ call3 1
  ++ [L_AddTask (task 3)] ++ call7 2 ++ [L_relay case_In]
  ++ [L_AddTask (task 4)] ++ call7 3 ++ [L_AddTask (task 5)] ++ call7 4
  ++ [L_relay case_In; L_worker 0 on_Out; L_relay case_Out].

(** Two direct hand-offs fill [Out], a third task is buffered, Shutdown
    closes [In], the relay loop sees the close while the buffer is not
    empty, a worker frees a slot and the relay loop hands the buffered
    task over. *)
Definition drain_schedule : list label :=
  [L_Start; L_AddTask (task 1)] ++ call3 0 ++ [L_AddTask (task 2)] ++ call3 1
  ++ [L_AddTask (task 3)] ++ call7 2
  ++ [L_relay case_In; L_Shutdown; L_relay case_In;
      L_worker 0 on_Out; L_relay case_Out].

(** The first worker idles out before the first submission; the task is
    then submitted while the count is zero; Shutdown and Wait follow. *)
Definition idle_then_submit : list label :=
  [L_Start; L_worker 0 on_idle; L_worker 0 on_run; L_AddTask (task 1)] ++ call4 0.

Definition early_wait_schedule : list label :=
  idle_then_submit ++ [L_Shutdown; L_Wait].

(** ... after which the task is relayed and run by the second worker,
    [Out] is closed, and the worker leaves. *)
Definition late_work_schedule : list label :=
  [L_relay case_In; L_relay case_Out; L_worker 1 on_Out; L_worker 1 on_run;
   L_relay case_In; L_worker 1 on_Out; L_worker 1 on_run].

(** The unit spawned at a zero count runs its task, idles out and
    leaves. *)
Definition unregistered_exit : list label :=
  [L_relay case_In; L_relay case_Out; L_worker 1 on_Out; L_worker 1 on_run;
   L_worker 1 on_idle; L_worker 1 on_run].


(** The token is fired with two tasks still in the relay buffer. *)
Definition cancel_schedule : list label :=
  [L_Start; L_AddTask (task 1)] ++ call3 0 ++ [L_AddTask (task 2)] ++ call3 1
  ++ [L_AddTask (task 3)] ++ call7 2 ++ [L_relay case_In]
  ++ [L_AddTask (task 4)] ++ call7 3 ++ [L_relay case_In; L_Down].



(** The only worker's idle timer fires; before its deferred Done runs,
    task 1 is submitted and handed off directly into [Out]; the worker
    leaves, Shutdown is called, the relay loop closes [Out], Wait
    returns. *)
Definition lost_schedule : list label :=
  [L_Start; L_worker 0 on_idle; L_AddTask (task 1)] ++ call3 0
  ++ [L_worker 0 on_run; L_Shutdown; L_relay case_In; L_Wait].

(** Nobody is left to run anything: the pool is down, the relay loop has
    returned, every worker has exited, no call of AddTask is past its
    first statement, and nothing has been executed. *)
Definition abandoned (w : world) : Prop :=
  executed w = [] /\ down (pool w) = true /\ relay w = r_done
  /\ Forall (fun pc => pc = w_exit) (workers w)
  /\ Forall (fun c => fst c = at_entry \/ fst c = at_return) (callers w).

(** *** Proof automation *)

(** case analysis on an innermost scrutinee of a match in [H] *)
Ltac split_match H :=
  match type of H with
  | context [match ?x with _ => _ end] =>
      lazymatch x with
      | context [match _ with _ => _ end] => fail
      | _ => let E := fresh "E" in destruct x eqn:E; try discriminate H
      end
  end.

(** Unfold one scheduler step in [H] down to the primitive operations and
    split every case. *)
Ltac unfold_step H :=
  unfold step, Start, Shutdown, Down, close_In, Run_loop,
    spawnOneWorker_step, AddTask_step, crash in H;
  unfold send_In, ExtWG.Add, ExtWG.Done, ExtWG.CompareAndAdd, ExtWG.bind,
    ExtWG.WaitGroup_Done, ExtWG.WaitGroup_Add, ExtWG.atomic_AddUint64,
    ExtWG.atomic_CompareAndSwapUint64, ExtWG.ret, ExtWG.GetWaitCount,
    Chan.send, Chan.recv, Chan.close in H.

Ltac crunch_step H :=
  unfold_step H; cbn in H; repeat (split_match H; cbn in H);
  try (injection H as <-).

Ltac wf_basics :=
  repeat match goal with
  | H : Some _ = Some _ |- _ => injection H as H; subst
  | H : ?a = ?a -> _ |- _ => specialize (H eq_refl)
  | H : forall c, Some ?x = Some c -> _ |- _ => specialize (H _ eq_refl)
  | H : ?P -> _, H' : ?P |- _ =>
      match type of P with Prop => specialize (H H') end
  | H : _ /\ _ |- _ => destruct H
  | H : exists _, _ |- _ => destruct H
  | |- _ /\ _ => split
  | |- _ -> _ => intro
  | |- forall _, _ => intro
  end; subst; cbn in *; try congruence; eauto.

Ltac wf_lists :=
  repeat match goal with
  | E : Chan.queue _ = _ |- _ => rewrite E in *; clear E
  end;
  cbn; repeat rewrite <- app_assoc; try reflexivity; try congruence.


(** ** Further state predicates *)

Definition WG (w : world) : Z := ExtWG.WaitGroup (tracker (pool w)).

(** The admission endpoint of a pool marked down is closed, or already
    replaced by nil in the field. *)
Definition In_sealed (w : world) : Prop :=
  EB.In (eb_of w) = None
  \/ exists c, EB.In (eb_of w) = Some c /\ Chan.closed c = true.

Definition sealed (a : list job) (w : world) : Prop :=
  down (pool w) = true /\ In_sealed w /\ admitted w = a.

Definition down_seals (w : world) : Prop :=
  down (pool w) = true -> In_sealed w.

(** Boolean comparisons on [Z] in the context become propositions. *)
Ltac Zbools :=
  repeat match goal with
    | H : (_ <? _) = true |- _ => apply Z.ltb_lt in H
    | H : (_ <? _) = false |- _ => apply Z.ltb_ge in H
    | H : (_ =? _) = true |- _ => apply Z.eqb_eq in H
    | H : (_ =? _) = false |- _ => apply Z.eqb_neq in H
    | H : (_ <=? _) = true |- _ => apply Z.leb_le in H
    | H : (_ <=? _) = false |- _ => apply Z.leb_gt in H
    end.

(** *** Counting jobs and goroutines *)

Definition job_eq_dec (a b : job) : {a = b} + {a <> b}.
Proof. decide equality. apply Nat.eq_dec. Defined.

(** the sum of [f] over a list *)
Fixpoint total {A : Type} (f : A -> nat) (l : list A) : nat :=
  match l with
  | [] => 0%nat
  | x :: r => (f x + total f r)%nat
  end.

Definition occ (j : job) (l : list job) : nat := count_occ job_eq_dec l j.

(** a worker that has received job [j] and has not finished with it *)
Definition holds (j : job) (pc : worker_pc) : nat :=
  match pc with
  | w_job j' => if job_eq_dec j' j then 1%nat else 0%nat
  | _ => 0%nat
  end.

(** a call of AddTask that still carries its job [j]: it has not sent it
    and has not returned *)
Definition carries (j : job) (c : AddTask_pc * job) : nat :=
  match fst c with
  | at_entry | at_count | at_send0 | at_select | at_send1 =>
      if job_eq_dec (snd c) j then 1%nat else 0%nat
  | _ => 0%nat
  end.

(** how often [j] is on its way: in a call of AddTask, in [In], in the
    relay buffer, in [Out], or in the hands of a worker *)
Definition in_flight (j : job) (w : world) : nat :=
  (total (carries j) (callers w) + occ j (EB.In_queue (eb_of w))
   + occ j (EB.buf (eb_of w)) + occ j (Chan.queue (EB.Out (eb_of w)))
   + total (holds j) (workers w))%nat.

Definition accounted (w : world) : Prop :=
  forall j, (occ j (map JWork (executed w)) + in_flight j w
             <= occ j (submitted w))%nat.

(** a worker goroutine that has not returned *)
Definition live (pc : worker_pc) : nat :=
  match pc with w_exit => 0%nat | _ => 1%nat end.

(** a call of AddTask between its successful compare-and-add and its
    [go p.spawnOneWorker()] *)
Definition about_to_spawn (c : AddTask_pc * job) : nat :=
  match fst c with at_go1 => 1%nat | _ => 0%nat end.

Definition registered (w : world) : Prop :=
  WG w <= Z.of_nat (total live (workers w) + total about_to_spawn (callers w)).




(** *** Sequences of tracker operations *)





(** ** package sync: Mutex.Unlock *)

Module Mutex.

(** The const block: [1 << iota] for the first three names, and [iota]
    itself, which is 3 on the fourth line, for the shift. *)
Definition mutexLocked : Z := 1.
Definition mutexWoken : Z := 2.
Definition mutexStarving : Z := 4.
Definition mutexWaiterShift : Z := 3.

Definition is_int32 (z : Z) : Prop := - 2 ^ 31 <= z < 2 ^ 31.
(** [int32] arithmetic wraps *)
Definition wrap32 (z : Z) : Z := (z + 2 ^ 31) mod 2 ^ 32 - 2 ^ 31.

(** How a call of Unlock ends: it returns, leaving [state] in [m.state]
    after calling [runtime_Semrelease(&m.sema, handoff)] once for every
    [handoff] of [releases]; or it throws; or it is still in its loop
    when the listed interference is used up. *)
Inductive result : Type :=
| Returned (state : Z) (releases : list bool)
| Thrown (msg : string) (state : Z)
| Spinning.

(** The loop of the normal mode.  [old] is the local variable, [cur] is
    [m.state].  One entry of [env] is what other goroutines do to
    [m.state] before the compare-and-swap of an iteration and before the
    read that follows a failed one. *)
Fixpoint Unlock_loop (env : list ((Z -> Z) * (Z -> Z))) (old cur : Z) : result :=
  if (Z.shiftr old mutexWaiterShift =? 0)
     || negb (Z.land old (Z.lor (Z.lor mutexLocked mutexWoken) mutexStarving) =? 0)
  then Returned cur []
  else
    let new := Z.lor (wrap32 (old - Z.shiftl 1 mutexWaiterShift)) mutexWoken in
    match env with
    | [] => Spinning
    | (before_cas, before_read) :: env' =>
        let cur1 := before_cas cur in
        if cur1 =? old then Returned new [false]
        else let cur2 := before_read cur1 in Unlock_loop env' cur2 cur2
    end.

Definition Unlock (env : list ((Z -> Z) * (Z -> Z))) (s : Z) : result :=
  let new := wrap32 (s + - mutexLocked) in
  if Z.land (wrap32 (new + mutexLocked)) mutexLocked =? 0
  then Thrown "sync: unlock of unlocked mutex" new
  else if Z.land new mutexStarving =? 0
       then Unlock_loop env new new
       else Returned new [true].

(** nobody else touches the mutex *)
Definition quiet : list ((Z -> Z) * (Z -> Z)) := [(fun x => x, fun x => x)].

(** the fields packed into [state] *)
Definition locked (s : Z) : bool := Z.testbit s 0.
Definition woken (s : Z) : bool := Z.testbit s 1.
Definition starving (s : Z) : bool := Z.testbit s 2.
Definition waiters (s : Z) : Z := Z.shiftr s 3.

End Mutex.

(** *** Where the submitted jobs are *)

Definition holds_any (pc : worker_pc) : nat :=
  match pc with w_job _ => 1%nat | _ => 0%nat end.

Definition carries_any (c : AddTask_pc * job) : nat :=
  match fst c with
  | at_entry | at_count | at_send0 | at_select | at_send1 => 1%nat
  | _ => 0%nat
  end.

(** the number of jobs on their way *)
Definition on_the_way (w : world) : nat :=
  (total carries_any (callers w) + length (EB.In_queue (eb_of w))
   + length (EB.buf (eb_of w)) + length (Chan.queue (EB.Out (eb_of w)))
   + total holds_any (workers w))%nat.

Definition conserved (w : world) : Prop :=
  length (submitted w)
  = (length (executed w) + length (logs w) + on_the_way w)%nat.

(** After [drain_schedule]: the workers run what is in [Out], idle out
    and leave, and Wait returns. *)
Definition idle_out_schedule : list label :=
  [L_worker 0 on_run; L_worker 0 on_Out; L_worker 0 on_run;
   L_worker 1 on_Out; L_worker 1 on_run; L_worker 0 on_idle;
   L_worker 0 on_run; L_worker 1 on_idle; L_worker 1 on_run; L_Wait].

(** * Theorems *)

(** ** The completion tracker *)


Lemma CompareAndAdd_eq (old delta : Z) (w : ExtWG.ExtWaitGroup) :
  ExtWG.CompareAndAdd old delta w =
  if ExtWG.waitCount w =? old
  then if ExtWG.WaitGroup w + ExtWG.int_of_uint64 delta <? 0
       then Panic "sync: negative WaitGroup counter"
       else Ok (true, ExtWG.mk (ExtWG.WaitGroup w + ExtWG.int_of_uint64 delta)
                               (ExtWG.wrap64 (old + delta)))
  else Ok (false, w).
Proof.
  unfold ExtWG.CompareAndAdd, ExtWG.bind, ExtWG.atomic_CompareAndSwapUint64,
    ExtWG.WaitGroup_Add, ExtWG.ret.
  destruct (ExtWG.waitCount w =? old); simpl; [|reflexivity].
  destruct (ExtWG.WaitGroup w + ExtWG.int_of_uint64 delta <? 0); reflexivity.
Qed.




(** ** AddTask *)

Lemma AddTask_run_return work env w :
  AddTask_run work env at_return w = Some (w, []).
Proof. destruct env; reflexivity. Qed.

Lemma AddTask_run_cons work e env pc w :
  pc <> at_return ->
  AddTask_run work (e :: env) pc w =
  match AddTask_step work pc (e w) with
  | Step (pc', evs) w' =>
      match AddTask_run work env pc' w' with
      | Some (w'', evs') => Some (w'', evs ++ evs')
      | None => None
      end
  | _ => None
  end.
Proof. destruct pc; intros H; try reflexivity. congruence. Qed.




Section AdmissionShape.
Variable work : job.
Variable N : Z.










End AdmissionShape.






(** ** Invariants of reachable worlds *)

Lemma run_invariant (P : world -> Prop) :
  (forall l w w', step l w = Some w' -> P w -> P w') ->
  forall tr w w', run tr w = Some w' -> P w -> P w'.
Proof.
  intros Hstep tr. induction tr as [| l tr IH]; intros w w' Hrun HP; simpl in Hrun.
  - injection Hrun as <-. exact HP.
  - destruct (step l w) as [w1 |] eqn:E; [| discriminate].
    eapply IH; [exact Hrun |]. eapply Hstep; eauto.
Qed.

Lemma exec_invariant (P : world -> Prop) :
  (forall n p, NewWorkerpool n = Some p -> P (boot p)) ->
  (forall l w w', step l w = Some w' -> P w -> P w') ->
  forall n tr w, exec n tr = Some w -> P w.
Proof.
  intros Hinit Hstep n tr w. unfold exec.
  destruct (NewWorkerpool n) as [p |] eqn:E; [| discriminate].
  intros Hrun. eapply run_invariant; eauto.
Qed.

Lemma wf_boot n p : NewWorkerpool n = Some p -> wf (boot p).
Proof.
  unfold NewWorkerpool. destruct (n <=? 0); [discriminate |].
  intros [= <-]. unfold wf, caps_fixed, open_until_down, closed_after_drain, fifo.
  cbn. repeat split; try discriminate; eauto.
  intros c [= <-]. reflexivity.
Qed.

Lemma wf_step l w w' : step l w = Some w' -> wf w -> wf w'.
Proof.
  intros H Hwf.
  destruct w as [[N d cx [i o b] [wgc cnt]] r ws cs ex lg ad rl sb wt cr].
  destruct l as [| | | | work | k | c | k c]; try destruct c.
  all: crunch_step H.
  all: unfold wf, caps_fixed, open_until_down, closed_after_drain, fifo,
         EB.In_queue in *; cbn in *.
  all: destruct Hwf as ((Hc1 & Hc2) & Hopen & Hclosed & Hfifo).
  all: try solve [ intuition (subst; cbn in *; try congruence; eauto) ].
  all: wf_basics.
  all: wf_lists.
Qed.

Lemma exec_wf n tr w : exec n tr = Some w -> wf w.
Proof. apply (exec_invariant wf wf_boot wf_step). Qed.

(** ** The relay buffer *)



Lemma relay_dead_step rl b l w w' :
  step l w = Some w' -> relay_dead rl b w -> relay_dead rl b w'.
Proof.
  intros H (Hr & Hrl & Hb).
  destruct w as [[N d cx [i o bf] [wgc cnt]] r ws cs ex lg ad rl0 sb wt cr].
  cbn in Hr, Hrl, Hb. subst r rl0 bf.
  destruct l as [| | | | work | k | c | k c]; try destruct c.
  all: crunch_step H.
  all: repeat split; reflexivity.
Qed.

Lemma relay_dead_run rl b tr w w' :
  run tr w = Some w' -> relay_dead rl b w -> relay_dead rl b w'.
Proof. apply (run_invariant (relay_dead rl b)). apply relay_dead_step. Qed.

(** C7.  When the relay loop takes the [ctx.Done()] case of its select
    the token has fired, the loop returns at once, whatever the length of
    its buffer, and nothing else changes; from then on, in every
    continuation, the list of jobs it has handed to [Out] stays what it
    was and the buffer keeps the jobs that were left in it. *)
Theorem cancellation_discards (w w' : world) :
  step (L_relay case_ctx) w = Some w' ->
  ctx_done (pool w) = true
  /\ w' = with_relay r_done w
  /\ forall tr w'', run tr w' = Some w'' ->
       relay w'' = r_done
       /\ relayed w'' = relayed w
       /\ EB.buf (eb_of w'') = EB.buf (eb_of w).
Proof.
  intros H.
  assert (Hs : ctx_done (pool w) = true /\ w' = with_relay r_done w).
  { unfold step, Run_loop in H. repeat split_match H; injection H as <-; auto. }
  destruct Hs as [Hctx ->]. split; [exact Hctx |]. split; [reflexivity |].
  intros tr w'' Hrun.
  apply (relay_dead_run (relayed w) (EB.buf (eb_of w)) tr _ _ Hrun).
  repeat split.
Qed.

Lemma cancellation_discards_witness :
  exists w w' w'',
    exec 5 cancel_schedule = Some w
    /\ EB.buf (eb_of w) = [task 3; task 4] /\ relayed w = []
    /\ step (L_relay case_ctx) w = Some w'
    /\ run [L_worker 0 on_Out; L_worker 0 on_run; L_worker 0 on_ctx] w' = Some w''
    /\ relay w'' = r_done
    /\ relayed w'' = relayed w
    /\ EB.buf (eb_of w'') = EB.buf (eb_of w).
Proof.
  eexists. eexists. eexists.
  split; [vm_compute; reflexivity |].
  split; [reflexivity |]. split; [reflexivity |].
  split; [vm_compute; reflexivity |].
  split; [vm_compute; reflexivity |].
  eapply (fun H => proj2 (proj2 (cancellation_discards _ _ H))
                     [L_worker 0 on_Out; L_worker 0 on_run; L_worker 0 on_ctx]).
  - vm_compute. reflexivity.
  - vm_compute. reflexivity.
Defined.

(** Between the firing of the token and the moment the loop takes the
    [ctx.Done()] case, the select may still take another ready case: here
    the loop hands a buffered job to [Out] although the token has fired. *)
Lemma relay_may_send_after_cancel :
  exists w w',
    exec 5 (cancel_schedule ++ [L_worker 0 on_Out]) = Some w
    /\ ctx_done (pool w) = true
    /\ step (L_relay case_Out) w = Some w'
    /\ relayed w' = [task 3].
Proof.
  eexists. eexists. split; [vm_compute; reflexivity |].
  split; [reflexivity |]. split; [vm_compute; reflexivity | reflexivity].
Qed.

Lemma parked_step l w w' : step l w = Some w' -> parked w -> parked w'.
Proof.
  intros H (Hr & Hin & Hb & Hd & Hc & Ho).
  destruct w as [[N d cx [i o bf] [wgc cnt]] r ws cs ex lg ad rl sb wt cr].
  cbn in Hr, Hin, Hb, Hd, Hc, Ho. subst r i bf d cx.
  destruct l as [| | | | work | k | c | k c]; try destruct c.
  all: crunch_step H.
  all: unfold parked; cbn; repeat split; try reflexivity; try assumption;
    try congruence.
Qed.

Lemma parked_run tr w w' : run tr w = Some w' -> parked w -> parked w'.
Proof. apply (run_invariant parked). apply parked_step. Qed.

(** C4, on the code.  After [drain_schedule] the admission endpoint has
    been closed, the relay loop has seen the close and every accepted job
    has been handed to [Out]; the buffer is empty.  Yet [Out] is open, no
    case of the loop's select can be taken, and in every continuation
    [Out] stays open and the loop stays in its loop: the dispatch endpoint
    is never closed. *)
Theorem drained_but_never_closed :
  exists w,
    exec 5 drain_schedule = Some w
    /\ down (pool w) = true
    /\ EB.In (eb_of w) = None
    /\ EB.buf (eb_of w) = []
    /\ admitted w = [task 3] /\ relayed w = [task 3]
    /\ Chan.closed (EB.Out (eb_of w)) = false
    /\ (forall c, step (L_relay c) w = None)
    /\ forall tr w', run tr w = Some w' ->
         Chan.closed (EB.Out (eb_of w')) = false /\ relay w' = r_loop.
Proof.
  eexists. split; [vm_compute; reflexivity |].
  do 6 (split; [reflexivity |]).
  split; [intros []; reflexivity |].
  intros tr w' Hrun.
  assert (Hp : parked w').
  { eapply parked_run; [exact Hrun |]. repeat split. }
  destruct Hp as (Hr & _ & _ & _ & _ & Ho). split; assumption.
Qed.



(** ** The pool controller *)

Lemma Shutdown_when_down p : down p = true -> Shutdown p = Ok p /\ Down p = Ok p.
Proof. intros H. unfold Shutdown, Down. rewrite H. split; reflexivity. Qed.

(** C8.  On a pool that is not marked down, Shutdown closes the admission
    endpoint, leaves the token unfired and marks the pool down; Down
    closes the admission endpoint, fires the token and marks the pool
    down; neither panics.  On a pool that is marked down, in particular
    after either call, Shutdown and Down return at once and change
    nothing. *)
Theorem Shutdown_Down_spec (n : Z) (tr : list label) (w : world) :
  exec n tr = Some w ->
  (down (pool w) = true ->
   Shutdown (pool w) = Ok (pool w) /\ Down (pool w) = Ok (pool w))
  /\ (down (pool w) = false ->
      exists c p1 p2,
        EB.In (eb_of w) = Some c /\ Chan.closed c = false
        /\ ctx_done (pool w) = false
        /\ p1 = with_down true
                  (with_eb (EB.with_In
                              (Some (Chan.mk (Chan.cap c) (Chan.queue c) true))
                              (eb_of w)) (pool w))
        /\ p2 = with_ctx_done true p1
        /\ Shutdown (pool w) = Ok p1 /\ ctx_done p1 = false
        /\ Down (pool w) = Ok p2 /\ ctx_done p2 = true
        /\ Shutdown p1 = Ok p1 /\ Down p1 = Ok p1
        /\ Shutdown p2 = Ok p2 /\ Down p2 = Ok p2).
Proof.
  intros H. split; [apply Shutdown_when_down |].
  intros Hd. destruct (exec_wf n tr w H) as (_ & Hopen & _ & _).
  destruct (Hopen Hd) as (Hctx & c & Hin & Hc).
  exists c. eexists. eexists.
  split; [exact Hin |]. split; [exact Hc |]. split; [exact Hctx |].
  split; [reflexivity |]. split; [reflexivity |].
  unfold eb_of in *.
  split; [| split; [exact Hctx |]; split; [| split; [reflexivity |]]].
  - unfold Shutdown, close_In, Chan.close. rewrite Hd, Hin, Hc.
    reflexivity.
  - unfold Down, close_In, Chan.close. rewrite Hd, Hin, Hc. reflexivity.
  - repeat split; reflexivity.
Qed.

Lemma Shutdown_Down_spec_witness :
  exists w c p1 p2,
    exec 5 [L_Start] = Some w /\ down (pool w) = false
    /\ EB.In (eb_of w) = Some c /\ Chan.closed c = false
    /\ ctx_done (pool w) = false
    /\ p1 = with_down true
              (with_eb (EB.with_In
                          (Some (Chan.mk (Chan.cap c) (Chan.queue c) true))
                          (eb_of w)) (pool w))
    /\ p2 = with_ctx_done true p1
    /\ Shutdown (pool w) = Ok p1 /\ ctx_done p1 = false
    /\ Down (pool w) = Ok p2 /\ ctx_done p2 = true
    /\ Shutdown p1 = Ok p1 /\ Down p1 = Ok p1
    /\ Shutdown p2 = Ok p2 /\ Down p2 = Ok p2.
Proof.
  eexists.
  assert (E : exec 5 [L_Start] = Some _) by (vm_compute; reflexivity).
  destruct (proj2 (Shutdown_Down_spec 5 [L_Start] _ E) eq_refl)
    as (c & p1 & p2 & Hrest).
  exists c, p1, p2. split; [exact E |]. split; [reflexivity |]. exact Hrest.
Defined.

(** C9.  A call of AddTask that finds the pool marked down logs one line
    and returns in one statement, whatever else is going on: the pool
    (tracker, channels, buffer), the workers, the record of executed
    tasks and the jobs accepted on the admission endpoint are what they
    were; nothing blocks and nothing panics. *)
Theorem AddTask_after_down (work : job) (w : world) :
  down (pool w) = true ->
  let w' := add_log "Error: add task into closed pool" w in
  AddTask_step work at_entry w = Step (at_return, [EvDown true; EvLog]) w'
  /\ AddTask work w = Some (w', [EvDown true; EvLog])
  /\ pool w' = pool w /\ workers w' = workers w /\ relay w' = relay w
  /\ executed w' = executed w /\ admitted w' = admitted w
  /\ relayed w' = relayed w /\ crashed w' = crashed w.
Proof.
  intros Hd w'. subst w'.
  assert (Hs : AddTask_step work at_entry w
               = Step (at_return, [EvDown true; EvLog])
                   (add_log "Error: add task into closed pool" w)).
  { cbn [AddTask_step]. rewrite Hd. reflexivity. }
  split; [exact Hs |]. split; [| repeat split].
  unfold AddTask. cbn [repeat]. rewrite AddTask_run_cons by discriminate.
  rewrite Hs, AddTask_run_return. reflexivity.
Qed.

Lemma AddTask_after_down_witness :
  exists w,
    exec 5 [L_Start; L_Shutdown] = Some w /\ down (pool w) = true
    /\ AddTask (task 1) w
       = Some (add_log "Error: add task into closed pool" w, [EvDown true; EvLog])
    /\ pool (add_log "Error: add task into closed pool" w) = pool w.
Proof.
  eexists. split; [vm_compute; reflexivity |]. split; [reflexivity |].
  split.
  - apply (AddTask_after_down (task 1)). reflexivity.
  - reflexivity.
Defined.






(** C1, on the code.  With capacity 1: the first worker idles out before
    anything is submitted, task 1 is then submitted (AddTask returns),
    Shutdown is called and Wait returns at once, the token never fires:
    Work() of task 1 has not run.  It runs afterwards, and when the
    worker that ran it leaves, its deferred Done panics. *)
Theorem Wait_returns_before_work :
  exists w w2,
    exec 1 early_wait_schedule = Some w
    /\ waited w = true /\ ctx_done (pool w) = false /\ crashed w = false
    /\ submitted w = [task 1] /\ callers w = [(at_return, task 1)]
    /\ executed w = []
    /\ run late_work_schedule w = Some w2
    /\ executed w2 = [1%nat] /\ crashed w2 = true.
Proof.
  eexists. eexists. split; [vm_compute; reflexivity |].
  do 6 (split; [reflexivity |]).
  split; [vm_compute; reflexivity |]. split; reflexivity.
Qed.

(** The three places that spawn a unit.  Start increments the tracker
    and then spawns; after the select, AddTask spawns only behind a
    successful compare-and-add, which has incremented the tracker; the
    zero-count branch of AddTask sends and spawns and leaves the tracker
    as it found it.  A unit that leaves the loop has exactly its deferred
    Done left to run. *)
Lemma spawn_sites (work : job) (w : world) :
  (0 <= ExtWG.WaitGroup (tracker (pool w)) + 1 ->
   Start w =
   Ok (go_spawnOneWorker
         (set_tracker
            (ExtWG.mk (ExtWG.WaitGroup (tracker (pool w)) + 1)
                      (ExtWG.wrap64 (ExtWG.waitCount (tracker (pool w)) + 1)))
            (with_relay r_loop w))))
  /\ (forall wc pc' evs w',
        AddTask_step work (at_cas wc) w = Step (pc', evs) w' ->
        pc' = at_go1 ->
        ExtWG.waitCount (tracker (pool w)) = wc
        /\ tracker (pool w')
           = ExtWG.mk (ExtWG.WaitGroup (tracker (pool w)) + 1)
                      (ExtWG.wrap64 (wc + 1)))
  /\ (forall u w1,
        send_In work w = Step u w1 ->
        AddTask_step work at_send0 w = Step (at_go0, [EvSendIn work]) w1
        /\ AddTask_step work at_go0 w1
           = Step (at_return, [EvSpawn]) (go_spawnOneWorker w1)
        /\ tracker (pool (go_spawnOneWorker w1)) = tracker (pool w))
  /\ (forall c pc' w',
        spawnOneWorker_step c w_defer w = Step pc' w' ->
        c = on_run /\ pc' = w_exit
        /\ ExtWG.Done (tracker (pool w)) = Ok (tt, tracker (pool w'))).
Proof.
  split; [| split; [| split]].
  - intros Hnn. unfold Start, ExtWG.Add, ExtWG.bind, ExtWG.WaitGroup_Add,
      ExtWG.atomic_AddUint64.
    cbn [pool with_relay tracker].
    destruct (Z.ltb_spec (ExtWG.WaitGroup (tracker (pool w)) + 1) 0); [lia |].
    reflexivity.
  - intros wc pc' evs w' H ->. cbn [AddTask_step] in H.
    rewrite CompareAndAdd_eq in H. change (ExtWG.int_of_uint64 1) with 1 in H.
    repeat split_match H; injection H as _ <-.
    match goal with E : (_ =? _) = true |- _ => apply Z.eqb_eq in E end.
    split; [assumption | reflexivity].
  - intros u w1 Hsend. cbn [AddTask_step]. rewrite Hsend.
    split; [destruct u; reflexivity |]. split; [reflexivity |].
    unfold send_In in Hsend. repeat split_match Hsend.
    injection Hsend as _ <-. reflexivity.
  - intros c pc' w' H. destruct c; cbn in H; try discriminate H.
    unfold ExtWG.Done, ExtWG.bind, ExtWG.WaitGroup_Done, ExtWG.WaitGroup_Add,
      ExtWG.atomic_AddUint64, ExtWG.ret in *.
    repeat split_match H. injection H as <- <-.
    repeat split; reflexivity.
Qed.

(** C5, on the code.  The worker never increments the tracker itself:
    Start and the compare-and-add path increment before they spawn, the
    zero-count path of AddTask does not.  After [idle_then_submit] a unit
    is running while the tracker reads zero, and when that unit leaves,
    its deferred Done finds the WaitGroup at zero and panics. *)
Theorem unit_spawned_without_increment :
  exists w w2,
    exec 5 idle_then_submit = Some w
    /\ workers w = [w_exit; w_select]
    /\ tracker (pool w) = ExtWG.zero
    /\ run unregistered_exit w = Some w2
    /\ workers w2 = [w_exit; w_defer] /\ executed w2 = [1%nat]
    /\ crashed w2 = true.
Proof.
  eexists. eexists. split; [vm_compute; reflexivity |].
  do 2 (split; [reflexivity |]).
  split; [vm_compute; reflexivity |]. repeat split.
Qed.

Lemma abandoned_step l w w' : step l w = Some w' -> abandoned w -> abandoned w'.
Proof.
  intros H (Hex & Hd & Hr & Hws & Hcs).
  destruct w as [[N d cx [i o bf] [wgc cnt]] r ws cs ex lg ad rl sb wt cr].
  cbn in Hex, Hd, Hr, Hws, Hcs. subst ex d r.
  destruct l as [| | | | work | k | c | k c]; try destruct c.
  all: crunch_step H.
  all: try solve [
    match goal with
    | E : ?l !! _ = Some _, Hf : Forall _ ?l |- _ =>
        let Hpc := fresh in
        assert (Hpc := Forall_lookup_1 _ _ _ _ Hf E); cbn in Hpc;
        first [discriminate Hpc | destruct Hpc as [Hpc | Hpc]; discriminate Hpc]
    end ].
  all: unfold abandoned; cbn; repeat split; try assumption.
  - apply Forall_app. split; [assumption |]. repeat constructor.
  - apply Forall_insert; [assumption |]. now right.
Qed.

(** A second way the code loses a task under graceful shutdown, with no
    zero-count submission involved: after [lost_schedule] Wait has
    returned, task 1 sits in the closed [Out], and no continuation ever
    runs it. *)
Lemma task_lost_for_ever :
  exists w,
    exec 1 lost_schedule = Some w
    /\ waited w = true /\ ctx_done (pool w) = false /\ crashed w = false
    /\ submitted w = [task 1] /\ callers w = [(at_return, task 1)]
    /\ Chan.queue (EB.Out (eb_of w)) = [task 1]
    /\ forall tr w', run tr w = Some w' -> executed w' = [].
Proof.
  eexists. split; [vm_compute; reflexivity |].
  do 6 (split; [reflexivity |]).
  intros tr w' Hrun.
  refine (proj1 (run_invariant abandoned abandoned_step tr _ w' Hrun _)).
  split; [reflexivity |]. split; [reflexivity |]. split; [reflexivity |].
  split; cbn; [repeat constructor | constructor; [now right | constructor]].
Qed.

(** * Further properties of the pool *)

Lemma WG_nonneg_step l w w' : step l w = Some w' -> 0 <= WG w -> 0 <= WG w'.
Proof.
  intros H Hnn.
  destruct w as [[N d cx [i o b] [wgc cnt]] r ws cs ex lg ad rl sb wt cr].
  unfold WG in *. cbn in Hnn.
  destruct l as [| | | | work | k | c | k c]; try destruct c.
  all: crunch_step H.
  all: cbn; Zbools; lia.
Qed.

Lemma exec_WG_nonneg n tr w : exec n tr = Some w -> 0 <= WG w.
Proof.
  apply (exec_invariant (fun w => 0 <= WG w)); [| apply WG_nonneg_step].
  intros n0 p. unfold NewWorkerpool. destruct (n0 <=? 0); [discriminate |].
  intros [= <-]. cbn. lia.
Qed.

Lemma down_seals_step l w w' :
  step l w = Some w' -> down_seals w -> down_seals w'.
Proof.
  intros H Hs.
  destruct w as [[N d cx [i o b] [wgc cnt]] r ws cs ex lg ad rl sb wt cr].
  unfold down_seals, In_sealed in *. cbn in Hs.
  destruct l as [| | | | work | k | c | k c]; try destruct c.
  all: crunch_step H.
  all: cbn; try assumption.
  all: intros Hd; try specialize (Hs Hd);
    try (destruct Hs as [Hs | (c0 & Hs & Hc0)]; [discriminate Hs |];
         injection Hs as <-);
    try congruence; eauto.
Qed.

Lemma exec_down_seals n tr w : exec n tr = Some w -> down_seals w.
Proof.
  apply (exec_invariant down_seals); [| apply down_seals_step].
  intros n0 p. unfold NewWorkerpool. destruct (n0 <=? 0); [discriminate |].
  intros [= <-]. intros Hd. discriminate Hd.
Qed.





Lemma sealed_step a l w w' : step l w = Some w' -> sealed a w -> sealed a w'.
Proof.
  intros H (Hd & Hs & Ha).
  destruct w as [[N d cx [i o b] [wgc cnt]] r ws cs ex lg ad rl sb wt cr].
  unfold sealed, In_sealed in *. cbn in Hd, Hs, Ha. subst d ad.
  destruct l as [| | | | work | k | c | k c]; try destruct c.
  all: crunch_step H.
  all: cbn; try (split; [reflexivity |]; split; [assumption | reflexivity]).
  all: try (destruct Hs as [Hs | (c0 & Hs & Hc0)]; [discriminate Hs |];
            injection Hs as <-; try congruence).
  all: split; [reflexivity |]; split; [| reflexivity]; eauto.
Qed.

(** Once the pool is marked down it stays down, and nothing is accepted
    on the admission endpoint any more: in every continuation the list of
    accepted jobs is what it was. *)
Theorem nothing_admitted_after_down (n : Z) (tr tr' : list label) (w w' : world) :
  exec n tr = Some w -> down (pool w) = true -> run tr' w = Some w' ->
  down (pool w') = true /\ admitted w' = admitted w.
Proof.
  intros H Hd Hrun.
  assert (Hs : sealed (admitted w) w).
  { split; [exact Hd |]. split; [exact (exec_down_seals n tr w H Hd) | reflexivity]. }
  destruct (run_invariant (sealed (admitted w)) (sealed_step (admitted w))
              tr' w w' Hrun Hs) as (Hd' & _ & Ha).
  split; assumption.
Qed.

Lemma nothing_admitted_after_down_witness :
  exists w w',
    exec 5 (fifo_schedule ++ [L_Shutdown]) = Some w
    /\ down (pool w) = true
    /\ run [L_AddTask (task 6); L_caller 5; L_relay case_In; L_Shutdown] w
       = Some w'
    /\ down (pool w') = true /\ admitted w' = admitted w.
Proof.
  eexists. eexists. split; [vm_compute; reflexivity |].
  split; [reflexivity |]. split; [vm_compute; reflexivity |].
  eapply (nothing_admitted_after_down 5 (fifo_schedule ++ [L_Shutdown])
            [L_AddTask (task 6); L_caller 5; L_relay case_In; L_Shutdown]);
    vm_compute; reflexivity.
Defined.

Lemma exec_app n tr tr' w w' :
  exec n tr = Some w -> run tr' w = Some w' -> exec n (tr ++ tr') = Some w'.
Proof.
  unfold exec. destruct (NewWorkerpool n) as [p |]; [| discriminate].
  generalize (boot p). induction tr as [| l tr IH]; intros w0 H Hrun; cbn in *.
  - injection H as <-. exact Hrun.
  - destruct (step l w0); [eauto | discriminate].
Qed.

Lemma In_nil_step l w w' :
  step l w = Some w' -> EB.In (eb_of w) = None -> EB.In (eb_of w') = None.
Proof.
  intros H Hnil.
  destruct w as [[N d cx [i o b] [wgc cnt]] r ws cs ex lg ad rl sb wt cr].
  cbn in Hnil. subst i.
  destruct l as [| | | | work | k | c | k c]; try destruct c.
  all: crunch_step H.
  all: reflexivity.
Qed.

(** Once the relay loop has stored nil in [eb.In] (it saw the admission
    endpoint closed while its buffer was not empty), the field stays nil
    and the dispatch endpoint is never closed, whatever happens next. *)
Theorem Out_never_closed_after_In_nil (n : Z) (tr tr' : list label)
    (w w' : world) :
  exec n tr = Some w -> EB.In (eb_of w) = None -> run tr' w = Some w' ->
  EB.In (eb_of w') = None /\ Chan.closed (EB.Out (eb_of w')) = false.
Proof.
  intros H Hnil Hrun.
  assert (Hnil' : EB.In (eb_of w') = None).
  { exact (run_invariant (fun w => EB.In (eb_of w) = None) In_nil_step
             tr' w w' Hrun Hnil). }
  split; [exact Hnil' |].
  destruct (exec_wf n (tr ++ tr') w' (exec_app n tr tr' w w' H Hrun))
    as (_ & _ & Hcl & _).
  destruct (Chan.closed (EB.Out (eb_of w'))) eqn:E; [| reflexivity].
  destruct (Hcl E) as (_ & _ & c & Hin & _). congruence.
Qed.

Lemma Out_never_closed_after_In_nil_witness :
  exists w w',
    exec 5 drain_schedule = Some w /\ EB.In (eb_of w) = None
    /\ run idle_out_schedule w = Some w'
    /\ executed w' = [1%nat; 2%nat; 3%nat] /\ waited w' = true
    /\ EB.In (eb_of w') = None /\ Chan.closed (EB.Out (eb_of w')) = false.
Proof.
  eexists. eexists. split; [vm_compute; reflexivity |].
  split; [reflexivity |]. split; [vm_compute; reflexivity |].
  split; [reflexivity |]. split; [reflexivity |].
  eapply (Out_never_closed_after_In_nil 5 drain_schedule idle_out_schedule);
    [vm_compute; reflexivity | reflexivity | vm_compute; reflexivity].
Defined.

Lemma token_step l w w' :
  step l w = Some w' -> ctx_done (pool w') = true ->
  ctx_done (pool w) = true \/ l = L_Down.
Proof.
  intros H Hc.
  destruct w as [[N d cx [i o b] [wgc cnt]] r ws cs ex lg ad rl sb wt cr].
  destruct l as [| | | | work | k | c | k c]; try destruct c.
  all: crunch_step H.
  all: cbn in *; auto.
Qed.

Lemma token_run tr w w' :
  run tr w = Some w' -> ctx_done (pool w') = true ->
  ctx_done (pool w) = true \/ List.In L_Down tr.
Proof.
  revert w. induction tr as [| l tr IH]; intros w H Hc; cbn in H.
  - injection H as <-. now left.
  - destruct (step l w) as [w1 |] eqn:E; [| discriminate].
    destruct (IH w1 H Hc) as [Hc1 | Hin]; [| right; now right].
    destruct (token_step l w w1 E Hc1) as [Hc0 | ->]; [now left |].
    right. now left.
Qed.

(** The cancellation token fires only in Down: in a world reached by a
    schedule without a call of Down the token has not fired; Shutdown,
    AddTask, the relay loop and the workers never cancel. *)
Theorem token_fires_only_in_Down (n : Z) (tr : list label) (w : world) :
  exec n tr = Some w -> ~ List.In L_Down tr -> ctx_done (pool w) = false.
Proof.
  unfold exec. destruct (NewWorkerpool n) as [p |] eqn:E; [| discriminate].
  intros Hrun Hno. destruct (ctx_done (pool w)) eqn:Hc; [| reflexivity].
  destruct (token_run tr (boot p) w Hrun Hc) as [H0 | Hin]; [| contradiction].
  unfold NewWorkerpool in E. destruct (n <=? 0); [discriminate |].
  injection E as <-. discriminate H0.
Qed.

Lemma token_fires_only_in_Down_witness :
  exists w,
    exec 5 (drain_schedule ++ idle_out_schedule) = Some w
    /\ ~ List.In L_Down (drain_schedule ++ idle_out_schedule)
    /\ down (pool w) = true /\ ctx_done (pool w) = false.
Proof.
  assert (Hno : ~ List.In L_Down (drain_schedule ++ idle_out_schedule)).
  { vm_compute. intros H.
    repeat (destruct H as [H | H]; [discriminate H |]). exact H. }
  eexists. split; [vm_compute; reflexivity |]. split; [exact Hno |].
  split; [reflexivity |].
  apply (token_fires_only_in_Down 5 (drain_schedule ++ idle_out_schedule));
    [vm_compute; reflexivity | exact Hno].
Defined.

(** ** Counting jobs and goroutines *)

Lemma total_app {A : Type} (f : A -> nat) (l1 l2 : list A) :
  total f (l1 ++ l2) = (total f l1 + total f l2)%nat.
Proof. induction l1 as [| x l1 IH]; cbn; [reflexivity | rewrite IH; lia]. Qed.

Lemma total_zero {A : Type} (f : A -> nat) (l : list A) :
  Forall (fun x => f x = 0%nat) l -> total f l = 0%nat.
Proof. induction 1 as [| x l Hx _ IH]; cbn; [reflexivity | lia]. Qed.

Lemma total_insert {A : Type} (f : A -> nat) (l : list A) (k : nat) (a b : A) :
  l !! k = Some a ->
  (total f (<[k := b]> l) + f a = total f l + f b)%nat.
Proof.
  revert k. induction l as [| x l IH]; intros [| k] E; simpl in *;
    try discriminate E.
  - injection E as ->. lia.
  - specialize (IH _ E). lia.
Qed.

(** In the goal, name every [total f (<[k:=b]> l)] and relate it to
    [total f l] through the entry found at [k]. *)
Ltac name_totals :=
  repeat match goal with
    | |- context [total ?f (<[?k := ?b]> ?l)] =>
        match goal with
        | E : l !! k = Some ?a |- _ =>
            let Hq := fresh "Hq" in
            let x := fresh "x" in
            pose proof (total_insert f l k a b E) as Hq;
            cbn in Hq;
            set (x := total f (<[k := b]> l)) in *; clearbody x
        end
    end.

Ltac count_jobs :=
  unfold occ in *;
  repeat match goal with
    | E : Chan.queue _ = _ |- _ => rewrite E in *; clear E
    end;
  name_totals;
  rewrite ?map_app, ?total_app, ?count_occ_app in *;
  cbn in *;
  repeat match goal with
    | |- context [job_eq_dec ?a ?b] => destruct (job_eq_dec a b)
    | H : context [job_eq_dec ?a ?b] |- _ => destruct (job_eq_dec a b)
    end;
  try congruence; try lia.

Lemma accounted_step l w w' : step l w = Some w' -> accounted w -> accounted w'.
Proof.
  intros H Hacc.
  destruct w as [[N d cx [i o b] [wgc cnt]] r ws cs ex lg ad rl sb wt cr].
  unfold accounted, in_flight, EB.In_queue in *. cbn in Hacc.
  destruct l as [| | | | work | k | c | k c]; try destruct c.
  all: crunch_step H.
  all: cbn; try assumption.
  all: intros jq; specialize (Hacc jq).
  all: count_jobs.
Qed.

Lemma exec_accounted n tr w : exec n tr = Some w -> accounted w.
Proof.
  apply (exec_invariant accounted); [| apply accounted_step].
  intros n0 p. unfold NewWorkerpool. destruct (n0 <=? 0); [discriminate |].
  intros [= <-] j. cbn. lia.
Qed.

(** No job is duplicated on its way through the pool: counting how often
    a job has been executed and how often it is still on its way (in a
    call of AddTask, in [In], in the relay buffer, in [Out], in the hands
    of a worker) never gives more than the number of times it was passed
    to AddTask.  A task submitted once is executed at most once. *)
Theorem no_job_is_duplicated (n : Z) (tr : list label) (w : world) (j : job) :
  exec n tr = Some w ->
  (occ j (map JWork (executed w)) + in_flight j w <= occ j (submitted w))%nat.
Proof. intros H. apply (exec_accounted n tr w H). Qed.

Lemma no_job_is_duplicated_witness :
  exists w,
    exec 5 (fifo_schedule ++ [L_worker 0 on_run]) = Some w
    /\ executed w = [1%nat] /\ in_flight (task 1) w = 0%nat
    /\ in_flight (task 3) w = 1%nat
    /\ (occ (task 3) (map JWork (executed w)) + in_flight (task 3) w
        <= occ (task 3) (submitted w))%nat.
Proof.
  eexists. split; [vm_compute; reflexivity |].
  split; [reflexivity |]. split; [reflexivity |]. split; [reflexivity |].
  apply (no_job_is_duplicated 5 (fifo_schedule ++ [L_worker 0 on_run])).
  vm_compute. reflexivity.
Defined.

Lemma registered_step l w w' :
  step l w = Some w' -> registered w -> registered w'.
Proof.
  intros H Hreg.
  destruct w as [[N d cx [i o b] [wgc cnt]] r ws cs ex lg ad rl sb wt cr].
  unfold registered, WG in *. cbn in Hreg.
  destruct l as [| | | | work | k | c | k c]; try destruct c.
  all: crunch_step H.
  all: cbn; try assumption.
  all: change (ExtWG.int_of_uint64 1) with 1 in *.
  all: name_totals; rewrite ?total_app; cbn; Zbools; lia.
Qed.

Lemma exec_registered n tr w : exec n tr = Some w -> registered w.
Proof.
  apply (exec_invariant registered); [| apply registered_step].
  intros n0 p. unfold NewWorkerpool. destruct (n0 <=? 0); [discriminate |].
  intros [= <-]. unfold registered. cbn. lia.
Qed.

(** Wait cannot hang once everybody has left: when every worker has
    returned and no call of AddTask stands between its successful
    compare-and-add and its spawn, the WaitGroup counter is zero and
    Wait returns. *)
Theorem Wait_returns_when_all_left (n : Z) (tr : list label) (w : world) :
  exec n tr = Some w -> crashed w = false ->
  Forall (fun pc => pc = w_exit) (workers w) ->
  Forall (fun c => fst c <> at_go1) (callers w) ->
  WG w = 0 /\ step L_Wait w = Some (with_waited true w).
Proof.
  intros H Hc Hws Hcs.
  pose proof (exec_registered n tr w H) as Hreg.
  pose proof (exec_WG_nonneg n tr w H) as Hnn.
  unfold registered in Hreg.
  rewrite (total_zero live (workers w)) in Hreg.
  2:{ eapply Forall_impl; [exact Hws |]. intros pc ->. reflexivity. }
  rewrite (total_zero about_to_spawn (callers w)) in Hreg.
  2:{ eapply Forall_impl; [exact Hcs |]. intros [pc j0] Hpc. cbn in *.
      unfold about_to_spawn. cbn. destruct pc; congruence. }
  assert (Hz : WG w = 0) by (cbn in Hreg; lia).
  split; [exact Hz |]. unfold step. rewrite Hc. unfold WG in Hz. rewrite Hz.
  reflexivity.
Qed.

Lemma Wait_returns_when_all_left_witness :
  exists w,
    exec 5 (cancel_schedule
            ++ [L_worker 0 on_ctx; L_worker 0 on_run; L_worker 1 on_ctx;
                L_worker 1 on_run; L_worker 2 on_ctx; L_worker 2 on_run])
    = Some w
    /\ crashed w = false
    /\ Forall (fun pc => pc = w_exit) (workers w)
    /\ Forall (fun c => fst c <> at_go1) (callers w)
    /\ EB.buf (eb_of w) = [task 3; task 4] /\ executed w = []
    /\ WG w = 0 /\ step L_Wait w = Some (with_waited true w).
Proof.
  eexists. split; [vm_compute; reflexivity |].
  assert (Hws : Forall (fun pc => pc = w_exit) [w_exit; w_exit; w_exit])
    by (repeat constructor).
  assert (Hcs : Forall (fun c : AddTask_pc * job => fst c <> at_go1)
                  [(at_return, task 1); (at_return, task 2);
                   (at_return, task 3); (at_return, task 4)])
    by (repeat (constructor; [discriminate |]); constructor).
  split; [reflexivity |]. split; [exact Hws |]. split; [exact Hcs |].
  split; [reflexivity |]. split; [reflexivity |].
  apply (Wait_returns_when_all_left 5
           (cancel_schedule
            ++ [L_worker 0 on_ctx; L_worker 0 on_run; L_worker 1 on_ctx;
                L_worker 1 on_run; L_worker 2 on_ctx; L_worker 2 on_run]));
    [vm_compute; reflexivity | reflexivity | exact Hws | exact Hcs].
Defined.






Lemma conserved_step l w w' : step l w = Some w' -> conserved w -> conserved w'.
Proof.
  intros H Hc.
  destruct w as [[N d cx [i o b] [wgc cnt]] r ws cs ex lg ad rl sb wt cr].
  unfold conserved, on_the_way, EB.In_queue in *. cbn in Hc.
  destruct l as [| | | | work | k | c | k c]; try destruct c.
  all: crunch_step H.
  all: cbn; try assumption.
  all: repeat match goal with
         | E : Chan.queue _ = _ |- _ => rewrite E in *; clear E
         end.
  all: name_totals; rewrite ?total_app, ?length_app in *; cbn in *; lia.
Qed.

(** Every job passed to AddTask is accounted for: the number of calls of
    AddTask equals the number of executed tasks, plus the number of log
    lines (one for every job rejected by a pool marked down and one for
    every job that is no IWorkload), plus the number of jobs still on
    their way in a call of AddTask, in [In], in the relay buffer, in
    [Out] or in the hands of a worker. *)
Theorem jobs_are_conserved (n : Z) (tr : list label) (w : world) :
  exec n tr = Some w ->
  length (submitted w)
  = (length (executed w) + length (logs w) + on_the_way w)%nat.
Proof.
  revert n tr w. apply (exec_invariant conserved); [| apply conserved_step].
  intros n p. unfold NewWorkerpool. destruct (n <=? 0); [discriminate |].
  intros [= <-]. reflexivity.
Qed.

Lemma jobs_are_conserved_witness :
  exists w,
    exec 5 (fifo_schedule
            ++ [L_worker 0 on_run; L_Shutdown; L_AddTask JNil; L_caller 5])
    = Some w
    /\ length (submitted w) = 6%nat /\ executed w = [1%nat]
    /\ length (logs w) = 1%nat /\ on_the_way w = 4%nat
    /\ length (submitted w)
       = (length (executed w) + length (logs w) + on_the_way w)%nat.
Proof.
  eexists. split; [vm_compute; reflexivity |].
  do 4 (split; [reflexivity |]).
  apply (jobs_are_conserved 5
           (fifo_schedule
            ++ [L_worker 0 on_run; L_Shutdown; L_AddTask JNil; L_caller 5])).
  vm_compute. reflexivity.
Defined.

(** ** The tracker on its own *)






(** ** Mutex.Unlock *)

Lemma land_low (w r m : Z) :
  0 <= r < 8 -> 0 <= m < 8 -> Z.land (8 * w + r) m = Z.land r m.
Proof.
  intros Hr Hm. apply Z.bits_inj'. intros n Hn. rewrite !Z.land_spec.
  destruct (Z_lt_ge_dec n 3) as [Hlt | Hge].
  - f_equal. rewrite <- (Z.mod_pow2_bits_low (8 * w + r) 3 n) by lia.
    f_equal. change (2 ^ 3) with 8. Z.div_mod_to_equations. lia.
  - assert (Hf : Z.testbit m n = false).
    { destruct (Z.eq_dec m 0) as [-> | Hnz]; [apply Z.bits_0 |].
      apply Z.bits_above_log2; [lia |].
      assert (Z.log2 m < 3) by (apply Z.log2_lt_pow2; [lia | change (2 ^ 3) with 8; lia]).
      lia. }
    rewrite Hf, !andb_false_r. reflexivity.
Qed.

Lemma shiftr_low (w r : Z) : 0 <= r < 8 -> Z.shiftr (8 * w + r) 3 = w.
Proof.
  intros Hr. rewrite Z.shiftr_div_pow2 by lia. change (2 ^ 3) with 8.
  Z.div_mod_to_equations. lia.
Qed.

Lemma testbit_low (w r n : Z) :
  0 <= r < 8 -> 0 <= n < 3 -> Z.testbit (8 * w + r) n = Z.testbit r n.
Proof.
  intros Hr Hn. rewrite <- (Z.mod_pow2_bits_low (8 * w + r) 3 n) by lia.
  f_equal. change (2 ^ 3) with 8. Z.div_mod_to_equations. lia.
Qed.

Lemma lor_woken (w : Z) : Z.lor (8 * w) 2 = 8 * w + 2.
Proof.
  assert (H0 : Z.land (8 * w) 2 = 0).
  { replace (8 * w) with (8 * w + 0) by lia. rewrite land_low by lia. reflexivity. }
  rewrite <- Z.lxor_lor by exact H0. symmetry. apply Z.add_nocarry_lxor. exact H0.
Qed.

Lemma split_state (s : Z) : exists w r, s = 8 * w + r /\ 0 <= r < 8.
Proof. exists (s / 8), (s mod 8). Z.div_mod_to_equations. lia. Qed.

Lemma wrap32_id (z : Z) : Mutex.is_int32 z -> Mutex.wrap32 z = z.
Proof.
  unfold Mutex.is_int32, Mutex.wrap32.
  change (2 ^ 31) with 2147483648. change (2 ^ 32) with 4294967296.
  intros H. Z.div_mod_to_equations. lia.
Qed.

(** Unlock of a mutex that is not locked throws, whatever else is going
    on: for every [int32] state whose locked bit is clear the call ends
    in "sync: unlock of unlocked mutex", after having subtracted
    [mutexLocked] from the state. *)
Theorem Unlock_of_unlocked_throws (env : list ((Z -> Z) * (Z -> Z))) (s : Z) :
  Mutex.is_int32 s -> Mutex.locked s = false ->
  Mutex.Unlock env s
  = Mutex.Thrown "sync: unlock of unlocked mutex" (Mutex.wrap32 (s - 1)).
Proof.
  intros Hs Hl. unfold Mutex.Unlock, Mutex.mutexLocked.
  assert (Hback : Mutex.wrap32 (Mutex.wrap32 (s + - (1)) + 1) = s).
  { unfold Mutex.is_int32 in Hs. unfold Mutex.wrap32.
    change (2 ^ 31) with 2147483648 in *. change (2 ^ 32) with 4294967296.
    Z.div_mod_to_equations. lia. }
  rewrite Hback.
  assert (Hz : Z.land s 1 = 0).
  { destruct (split_state s) as (w & r & -> & Hr).
    unfold Mutex.locked in Hl. rewrite testbit_low in Hl by lia.
    rewrite land_low by lia.
    assert (Hc : r = 0 \/ r = 1 \/ r = 2 \/ r = 3 \/ r = 4 \/ r = 5 \/ r = 6 \/ r = 7)
      by lia.
    destruct Hc as [-> | [-> | [-> | [-> | [-> | [-> | [-> | ->]]]]]]];
      vm_compute in Hl; try discriminate Hl; reflexivity. }
  rewrite Hz. cbn. replace (s + -1) with (s - 1) by lia. reflexivity.
Qed.

Lemma Unlock_of_unlocked_throws_witness :
  Mutex.is_int32 0 /\ Mutex.locked 0 = false
  /\ Mutex.Unlock Mutex.quiet 0
     = Mutex.Thrown "sync: unlock of unlocked mutex" (Mutex.wrap32 (0 - 1)).
Proof.
  assert (H0 : Mutex.is_int32 0)
    by (vm_compute; split; [intros H; discriminate H | reflexivity]).
  split; [exact H0 |]. split; [reflexivity |].
  apply (Unlock_of_unlocked_throws Mutex.quiet 0); [exact H0 | reflexivity].
Defined.

Lemma Unlock_loop_releases env old cur st rel :
  Mutex.Unlock_loop env old cur = Mutex.Returned st rel ->
  rel = [] \/ rel = [false].
Proof.
  revert old cur. induction env as [| [bc br] env IH]; intros old cur H;
    cbn in H; repeat split_match H.
  - injection H as _ <-. now left.
  - injection H as _ <-. now left.
  - injection H as _ <-. now right.
  - eapply IH; eassumption.
Qed.

(** Unlock wakes at most one waiter, whatever other goroutines do to the
    state while it runs: a call that returns has called
    [runtime_Semrelease] at most once, with [handoff] exactly when the
    state it left behind is in starvation mode. *)
Theorem Unlock_wakes_at_most_one (env : list ((Z -> Z) * (Z -> Z)))
    (s st : Z) (rel : list bool) :
  Mutex.Unlock env s = Mutex.Returned st rel ->
  rel = [] \/ rel = [false]
  \/ (rel = [true] /\ st = Mutex.wrap32 (s - 1)
      /\ Z.land st Mutex.mutexStarving <> 0).
Proof.
  unfold Mutex.Unlock. intros H. repeat split_match H.
  - apply Unlock_loop_releases in H. destruct H; auto.
  - injection H as <- <-. right. right.
    replace (s + - Mutex.mutexLocked) with (s - 1) in * by (unfold Mutex.mutexLocked; lia).
    split; [reflexivity |]. split; [reflexivity |].
    match goal with E : (_ =? 0) = false |- _ => apply Z.eqb_neq in E; exact E end.
Qed.

Lemma Unlock_wakes_at_most_one_witness :
  Mutex.Unlock [(fun _ => 16, fun x => x); (fun x => x, fun x => x)] 9
  = Mutex.Returned 10 [false]
  /\ ([false] = [] \/ [false] = [false]
      \/ ([false] = [true] /\ 10 = Mutex.wrap32 (9 - 1)
          /\ Z.land 10 Mutex.mutexStarving <> 0)).
Proof.
  split; [reflexivity |].
  apply (Unlock_wakes_at_most_one
           [(fun _ => 16, fun x => x); (fun x => x, fun x => x)] 9 10).
  reflexivity.
Defined.

Ltac calc t := let v := eval vm_compute in t in change t with v.

Ltac calc_flags r0 :=
  calc (r0 - 1); calc (Z.land r0 1 =? 0); calc (Z.testbit r0 2);
  calc (Z.testbit r0 1);
  let r1 := eval vm_compute in (r0 - 1) in calc (Z.land r1 4 =? 0).

Ltac read_fields :=
  rewrite ?testbit_low, ?shiftr_low by lia;
  repeat match goal with
    | |- context [Z.testbit ?a ?b] =>
        lazymatch a with
        | context [Z.mul] => fail
        | _ => calc (Z.testbit a b)
        end
    end.

Lemma Unlock_quiet_fields (w r : Z) :
  0 <= w -> 8 * w + r < 2 ^ 31 -> r = 1 \/ r = 3 \/ r = 5 \/ r = 7 ->
  let s := 8 * w + r in
  exists st rel,
    Mutex.Unlock Mutex.quiet s = Mutex.Returned st rel
    /\ Mutex.locked st = false
    /\ Mutex.starving st = Mutex.starving s
    /\ (if Mutex.starving s
        then rel = [true] /\ Mutex.waiters st = Mutex.waiters s
             /\ Mutex.woken st = Mutex.woken s
        else if (Mutex.waiters s =? 0) || Mutex.woken s
             then rel = [] /\ Mutex.waiters st = Mutex.waiters s
                  /\ Mutex.woken st = Mutex.woken s
             else rel = [false] /\ Mutex.waiters st = Mutex.waiters s - 1
                  /\ Mutex.woken st = true).
Proof.
  intros Hw Hs Hr s. subst s.
  change (2 ^ 31) with 2147483648 in Hs.
  assert (Hnew : Mutex.wrap32 (8 * w + r + - Mutex.mutexLocked) = 8 * w + (r - 1)).
  { rewrite wrap32_id; [unfold Mutex.mutexLocked; lia |].
    unfold Mutex.is_int32, Mutex.mutexLocked.
    change (2 ^ 31) with 2147483648. lia. }
  assert (Hback : Mutex.wrap32 (8 * w + (r - 1) + Mutex.mutexLocked) = 8 * w + r).
  { rewrite wrap32_id; [unfold Mutex.mutexLocked; lia |].
    unfold Mutex.is_int32, Mutex.mutexLocked.
    change (2 ^ 31) with 2147483648. lia. }
  unfold Mutex.Unlock. rewrite Hnew, Hback. clear Hnew Hback.
  unfold Mutex.locked, Mutex.woken, Mutex.starving, Mutex.waiters,
    Mutex.mutexLocked, Mutex.mutexWoken, Mutex.mutexStarving.
  rewrite !land_low, !shiftr_low, !testbit_low by lia.
  destruct Hr as [-> | [-> | [-> | ->]]].
  - (* locked only *)
    calc_flags 1. cbn [Mutex.quiet Mutex.Unlock_loop].
    unfold Mutex.mutexLocked, Mutex.mutexWoken, Mutex.mutexStarving,
      Mutex.mutexWaiterShift.
    calc (Z.lor (Z.lor 1 2) 4). calc (Z.shiftl 1 3).
    rewrite land_low, shiftr_low by lia. calc (Z.land 0 7 =? 0).
    destruct (Z.eqb_spec w 0) as [-> | Hnz]; cbn [orb negb].
    + eexists. eexists. split; [reflexivity |]. read_fields.
      repeat split; reflexivity.
    + replace (8 * w + 0 - 8) with (8 * (w - 1)) by lia.
      rewrite wrap32_id
        by (unfold Mutex.is_int32; change (2 ^ 31) with 2147483648; lia).
      rewrite lor_woken, Z.eqb_refl.
      eexists. eexists. split; [reflexivity |]. read_fields.
      repeat split; reflexivity.
  - (* locked and woken *)
    calc_flags 3. cbn [Mutex.quiet Mutex.Unlock_loop].
    unfold Mutex.mutexLocked, Mutex.mutexWoken, Mutex.mutexStarving,
      Mutex.mutexWaiterShift.
    calc (Z.lor (Z.lor 1 2) 4).
    rewrite land_low, shiftr_low by lia. calc (Z.land 2 7 =? 0).
    rewrite !orb_true_r. cbn [negb].
    eexists. eexists. split; [reflexivity |]. read_fields.
    repeat split; reflexivity.
  - (* locked and starving *)
    calc_flags 5.
    eexists. eexists. split; [reflexivity |]. read_fields.
    repeat split; reflexivity.
  - (* locked, woken and starving *)
    calc_flags 7.
    eexists. eexists. split; [reflexivity |]. read_fields.
    repeat split; reflexivity.
Qed.

(** What Unlock does to a locked mutex while nobody else touches it, read
    off the fields of the state.  The locked bit is cleared and the
    starving bit kept.  In starvation mode the lock is handed off: one
    [Semrelease] with [handoff], waiter count and woken bit unchanged.
    Otherwise, when nobody waits or somebody is already woken, nothing
    else happens; and when somebody waits and nobody is woken, the waiter
    count goes down by one, the woken bit is set and [Semrelease] is
    called once without [handoff]. *)
Theorem Unlock_quiet (s : Z) :
  0 <= s < 2 ^ 31 -> Mutex.locked s = true ->
  exists st rel,
    Mutex.Unlock Mutex.quiet s = Mutex.Returned st rel
    /\ Mutex.locked st = false
    /\ Mutex.starving st = Mutex.starving s
    /\ (if Mutex.starving s
        then rel = [true] /\ Mutex.waiters st = Mutex.waiters s
             /\ Mutex.woken st = Mutex.woken s
        else if (Mutex.waiters s =? 0) || Mutex.woken s
             then rel = [] /\ Mutex.waiters st = Mutex.waiters s
                  /\ Mutex.woken st = Mutex.woken s
             else rel = [false] /\ Mutex.waiters st = Mutex.waiters s - 1
                  /\ Mutex.woken st = true).
Proof.
  intros Hs Hl. destruct (split_state s) as (w & r & -> & Hr).
  unfold Mutex.locked in Hl. rewrite testbit_low in Hl by lia.
  assert (Hodd : r = 1 \/ r = 3 \/ r = 5 \/ r = 7).
  { assert (Hc : r = 0 \/ r = 1 \/ r = 2 \/ r = 3 \/ r = 4 \/ r = 5
                 \/ r = 6 \/ r = 7) by lia.
    destruct Hc as [-> | [-> | [-> | [-> | [-> | [-> | [-> | ->]]]]]]];
      vm_compute in Hl; try discriminate Hl; auto. }
  apply Unlock_quiet_fields; [lia | lia | exact Hodd].
Qed.

Lemma Unlock_quiet_witness :
  0 <= 17 < 2 ^ 31 /\ Mutex.locked 17 = true
  /\ Mutex.Unlock Mutex.quiet 17 = Mutex.Returned 10 [false]
  /\ exists st rel,
       Mutex.Unlock Mutex.quiet 17 = Mutex.Returned st rel
       /\ Mutex.locked st = false
       /\ Mutex.starving st = Mutex.starving 17
       /\ (if Mutex.starving 17
           then rel = [true] /\ Mutex.waiters st = Mutex.waiters 17
                /\ Mutex.woken st = Mutex.woken 17
           else if (Mutex.waiters 17 =? 0) || Mutex.woken 17
                then rel = [] /\ Mutex.waiters st = Mutex.waiters 17
                     /\ Mutex.woken st = Mutex.woken 17
                else rel = [false] /\ Mutex.waiters st = Mutex.waiters 17 - 1
                     /\ Mutex.woken st = true).
Proof.
  assert (Hr : 0 <= 17 < 2 ^ 31)
    by (vm_compute; split; [intros H; discriminate H | reflexivity]).
  split; [exact Hr |]. split; [reflexivity |]. split; [reflexivity |].
  apply (Unlock_quiet 17); [exact Hr | reflexivity].
Defined.
